(** * SQP query responder (lib/svrsample/protocol/sqp/sqp.go)

    A shallow embedding of the SQP challenge/query responder and the
    properties of its packet classification, challenge store and wire
    records. *)

From Stdlib Require Import ZArith List String DecimalString Lia.
From stdpp Require Import gmap strings list fin_maps.
From coqutil Require Import Byte Z.bitblast.
Import ListNotations.
Local Open Scope Z_scope.

(** ** Machine integers and bytes *)

#[global] Instance byte_eq_dec : EqDecision byte := Byte.byte_eq_dec.

(** Conversions [uint16(x)] and [uint32(x)]: the value modulo the width. *)
Definition uint16 (z : Z) : Z := z mod 2 ^ 16.
Definition uint32 (z : Z) : Z := z mod 2 ^ 32.

(** ** Go byte slices

    A [[]byte] is a window on a backing array: [elems] are the [len(s)]
    visible bytes and [spare] the bytes of the array between [len(s)] and
    [cap(s)].  A literal such as [[]byte{1, 2}] has no spare capacity. *)
Record slice := mkSlice { elems : list byte; spare : list byte }.

Definition bytes_lit (l : list byte) : slice := mkSlice l [].

Definition len (s : slice) : nat := length (elems s).
Definition cap (s : slice) : nat := length (elems s ++ spare s).

(** [s[i]]: run-time panic (None) unless [i < len(s)]. *)
Definition index (s : slice) (i : nat) : option byte := elems s !! i.

(** [s[lo:hi]]: run-time panic (None) unless [lo <= hi <= cap(s)]; the
    bound is the capacity, not the length. *)
Definition reslice (s : slice) (lo hi : nat) : option slice :=
  if decide (lo ≤ hi ≤ cap s)%nat
  then Some (mkSlice (take (hi - lo) (drop lo (elems s ++ spare s)))
                     (drop hi (elems s ++ spare s)))
  else None.

(** [bytes.Equal(a, b)]: same length and same visible bytes. *)
Definition bytes_Equal (a b : slice) : bool := bool_decide (elems a = elems b).

(** The value of four, and of two, bytes read most significant first:
    [uint32(b3) | uint32(b2)<<8 | uint32(b1)<<16 | uint32(b0)<<24]. *)
Definition word32 (b0 b1 b2 b3 : byte) : Z :=
  Z.lor (Z.lor (Z.lor (byte.unsigned b3) (Z.shiftl (byte.unsigned b2) 8))
               (Z.shiftl (byte.unsigned b1) 16))
        (Z.shiftl (byte.unsigned b0) 24).

Definition word16 (b0 b1 : byte) : Z :=
  Z.lor (byte.unsigned b1) (Z.shiftl (byte.unsigned b0) 8).

(** [binary.BigEndian.Uint32(b)] and [Uint16(b)]; both index the last
    byte they need first, so a short slice panics. *)
Definition BigEndian_Uint32 (b : slice) : option Z :=
  b3 ← index b 3; b2 ← index b 2; b1 ← index b 1; b0 ← index b 0;
  Some (word32 b0 b1 b2 b3).

Definition BigEndian_Uint16 (b : slice) : option Z :=
  b1 ← index b 1; b0 ← index b 0;
  Some (word16 b0 b1).

(** The big-endian bytes of a 16-bit and of a 32-bit value. *)
Definition be16 (v : Z) : list byte :=
  [byte.of_Z (Z.shiftr v 8); byte.of_Z v].
Definition be32 (v : Z) : list byte :=
  [byte.of_Z (Z.shiftr v 24); byte.of_Z (Z.shiftr v 16);
   byte.of_Z (Z.shiftr v 8); byte.of_Z v].

(** ** Errors

    The five errors [Respond] creates, and the text each carries. *)
Inductive error :=
| errUnsupportedQuery
| errNoChallenge
| errPacketNotLongEnough
| errChallengeMismatch
| errUnsupportedVersion (got : byte).

#[global] Instance error_eq_dec : EqDecision error.
Proof. solve_decision. Defined.

(** The verb [%d] applied to a byte. *)
Definition fmt_d (b : byte) : string :=
  NilEmpty.string_of_uint (N.to_uint (Byte.to_N b)).

Definition Error (e : error) : string :=
  match e with
  | errUnsupportedQuery => "unsupported query"
  | errNoChallenge => "no challenge"
  | errPacketNotLongEnough => "packet not long enough"
  | errChallengeMismatch => "challenge mismatch"
  | errUnsupportedVersion got => "unsupported sqp version: " ++ fmt_d got
  end%string.

(** ** Wire records *)

(** Modelled from the spec: [ServerInfo] (declared outside sqp.go) is the
    opaque, variable-length encoded server-info block; it is represented by
    its encoded bytes, [Size] is its byte length as a uint32, and the zero
    value is the empty block. *)
Definition ServerInfo : Type := list byte.
Definition Size (si : ServerInfo) : Z := uint32 (Z.of_nat (length si)).
Definition ServerInfo_zero : ServerInfo := [].

(** challengeWireFormat *)
Record challengeWireFormat := mkChallengeWire {
  c_Header : byte;
  c_Challenge : Z
}.

(** queryWireFormat *)
Record queryWireFormat := mkQueryWire {
  q_Header : byte;
  q_Challenge : Z;
  q_SQPVersion : Z;
  q_CurrentPacketNum : byte;
  q_LastPacketNum : byte;
  q_PayloadLength : Z;
  q_ServerInfoLength : Z;
  q_ServerInfo : ServerInfo
}.

(** Modelled from the spec: [common.WireWrite] with [common.Encoder]
    (package common is outside sqp.go) appends to the buffer each field of
    the record in declaration order, multi-byte integers big-endian, the
    server-info block last; on these records it reports no encoding error. *)
Definition WireWrite_challenge (resp : list byte) (d : challengeWireFormat)
  : list byte * option error :=
  (resp ++ [c_Header d] ++ be32 (c_Challenge d), None).

Definition WireWrite_query (resp : list byte) (d : queryWireFormat)
  : list byte * option error :=
  (resp ++ [q_Header d] ++ be32 (q_Challenge d) ++ be16 (q_SQPVersion d)
        ++ [q_CurrentPacketNum d; q_LastPacketNum d]
        ++ be16 (q_PayloadLength d) ++ be32 (q_ServerInfoLength d)
        ++ q_ServerInfo d, None).

(** ** The responder *)

Section Responder.

(** [common.QueryState] and the conversion [QueryStateToServerInfo] are
    declared outside sqp.go; the responder is parametric in both. *)
Context {QueryState : Type}.
Variable QueryStateToServerInfo : QueryState -> ServerInfo.

(** QueryResponder: [challenges] is the [sync.Map] from client address to
    the uint32 stored for it; the encoder [enc] has no fields. *)
Record QueryResponder := mkResponder {
  challenges : gmap string Z;
  state : QueryState
}.

(** What a call returns: the response bytes ([nil] is the empty list) and
    the error ([nil] is [None]). *)
Definition result : Type := list byte * option error.

(** isChallenge *)
Definition isChallenge (buf : slice) : option bool :=
  s ← reslice buf 0 5;
  Some (bytes_Equal s (bytes_lit [Byte.x00; Byte.x00; Byte.x00; Byte.x00; Byte.x00])).

(** isQuery *)
Definition isQuery (buf : slice) : option bool :=
  b ← index buf 0;
  Some (bool_decide (b = Byte.x01)).

(** handleChallenge; [rnd] is the next output of math/rand's source, of
    which [rand.Uint32()] returns the 32 bits. *)
Definition handleChallenge (q : QueryResponder) (rnd : Z) (clientAddress : string)
  : QueryResponder * result :=
  let v := uint32 rnd in
  let q := mkResponder (<[clientAddress := v]> (challenges q)) (state q) in
  let resp := [] in
  let '(resp, err) :=
    WireWrite_challenge resp (mkChallengeWire Byte.x00 v) in
  match err with
  | Some e => (q, ([], Some e))
  | None => (q, (resp, None))
  end.

(** Lines 113-127 of handleQuery: the record built for a validated query. *)
Definition queryRecord (q : QueryResponder) (expectedChallenge : Z)
    (requestedChunks : byte) : queryWireFormat :=
  let wantsServerInfo := Z.land (byte.unsigned requestedChunks) 1 =? 1 in
  let f := mkQueryWire Byte.x01 expectedChallenge 1 Byte.x00 Byte.x00 0 0 ServerInfo_zero in
  if wantsServerInfo then
    let si := QueryStateToServerInfo (state q) in
    let sil := Size si in
    mkQueryWire (q_Header f) (q_Challenge f) (q_SQPVersion f)
                (q_CurrentPacketNum f) (q_LastPacketNum f)
                (uint16 (q_PayloadLength f + uint16 (uint16 sil + 4)))
                sil si
  else f.

(** handleQuery; None is a run-time panic. *)
Definition handleQuery (q : QueryResponder) (clientAddress : string) (buf : slice)
  : option (QueryResponder * result) :=
  let loaded := challenges q !! clientAddress in
  let q := mkResponder (delete clientAddress (challenges q)) (state q) in
  match loaded with
  | None => Some (q, ([], Some errNoChallenge))
  | Some expectedChallenge =>
    if decide (len buf < 8)%nat then Some (q, ([], Some errPacketNotLongEnough))
    else
      s15 ← reslice buf 1 5;
      c ← BigEndian_Uint32 s15;
      if decide (c ≠ expectedChallenge)
      then Some (q, ([], Some errChallengeMismatch))
      else
        s57 ← reslice buf 5 7;
        ver ← BigEndian_Uint16 s57;
        if decide (ver ≠ 1)
        then b6 ← index buf 6; Some (q, ([], Some (errUnsupportedVersion b6)))
        else
          requestedChunks ← index buf 7;
          let f := queryRecord q expectedChallenge requestedChunks in
          let resp := [] in
          let '(resp, err) := WireWrite_query resp f in
          match err with
          | Some e => Some (q, ([], Some e))
          | None => Some (q, (resp, None))
          end
  end.

(** Respond: the cases of the switch are tried in order. *)
Definition Respond (q : QueryResponder) (rnd : Z) (clientAddress : string)
    (buf : slice) : option (QueryResponder * result) :=
  c ← isChallenge buf;
  if c : bool then Some (handleChallenge q rnd clientAddress)
  else
    y ← isQuery buf;
    if y : bool then handleQuery q clientAddress buf
    else Some (q, ([], Some errUnsupportedQuery)).

(** A query packet as a client builds it: header 1, the challenge and the
    version big-endian, the chunk bitmask. *)
Definition queryPacket (challenge version : Z) (chunks : byte) : slice :=
  bytes_lit ([Byte.x01] ++ be32 challenge ++ be16 version ++ [chunks]).

(** The packet took the second case of the switch in [Respond]. *)
Definition queryClassified (buf : slice) : Prop :=
  isChallenge buf = Some false ∧ isQuery buf = Some true.

(** The responder after [LoadAndDelete] for an address. *)
Definition consumed (q : QueryResponder) (clientAddress : string)
  : QueryResponder :=
  mkResponder (delete clientAddress (challenges q)) (state q).

(** What [handleQuery] returns on a packet of at least 8 bytes whose
    sender holds the token [T], by the bytes it reads. *)
Definition queryOutcome (q : QueryResponder) (T : Z)
    (b1 b2 b3 b4 b5 b6 b7 : byte) : result :=
  if decide (word32 b1 b2 b3 b4 ≠ T) then ([], Some errChallengeMismatch)
  else if decide (word16 b5 b6 ≠ 1) then ([], Some (errUnsupportedVersion b6))
  else ((WireWrite_query [] (queryRecord q T b7)).1, None).

(** NewQueryResponder: the responder starts with no challenge stored and
    the given state; the error returned is always nil. *)
Definition NewQueryResponder (state : QueryState)
  : QueryResponder * option error :=
  (mkResponder ∅ state, None).

(** The responders a new responder can become, one returning call of
    [Respond] after another. *)
Inductive reachable : QueryResponder → Prop :=
| reachable_new (st : QueryState) : reachable (NewQueryResponder st).1
| reachable_call (q : QueryResponder) (rnd : Z) (clientAddress : string)
    (buf : slice) (q' : QueryResponder) (r : result) :
    reachable q →
    Respond q rnd clientAddress buf = Some (q', r) →
    reachable q'.

(** [served_others A q q']: the responder went from [q] to [q'] by
    returning calls of [Respond], none of them from address [A]. *)
Inductive served_others (A : string) : QueryResponder → QueryResponder → Prop :=
| served_none (q : QueryResponder) : served_others A q q
| served_call (q : QueryResponder) (rnd : Z) (B : string) (buf : slice)
    (q1 : QueryResponder) (r : result) (q2 : QueryResponder) :
    B ≠ A →
    Respond q rnd B buf = Some (q1, r) →
    served_others A q1 q2 →
    served_others A q q2.

End Responder.

(** * Properties *)

(** ** Big-endian reads and writes *)

Lemma uint32_range (z : Z) : 0 ≤ uint32 z < 2 ^ 32.
Proof. unfold uint32. apply Z.mod_pos_bound. lia. Qed.

Lemma uint32_id (z : Z) : 0 ≤ z < 2 ^ 32 → uint32 z = z.
Proof. intros H. unfold uint32. apply Z.mod_small. exact H. Qed.

Lemma high_bits_clear (v n i : Z) :
  0 ≤ n → 0 ≤ v < 2 ^ n → n ≤ i → Z.testbit v i = false.
Proof.
  intros Hn Hv Hi.
  destruct (Z.eq_dec v 0) as [->|Hne]; [apply Z.bits_0|].
  apply Z.bits_above_log2; [lia|].
  apply Z.lt_le_trans with n; [|exact Hi].
  apply Z.log2_lt_pow2; lia.
Qed.

(** Closes a bitwise goal once the bits of [v] from [n] up, and the bits
    at negative positions, are known clear. *)
Ltac clear_high_bits v n :=
  repeat match goal with
  | |- context [Z.testbit v ?i] => rewrite (high_bits_clear v n i) by lia
  | |- context [Z.testbit ?x ?i] => rewrite (Z.testbit_neg_r x i) by lia
  end;
  cbn [andb orb negb];
  rewrite ?Bool.andb_true_r, ?Bool.andb_false_r, ?Bool.orb_false_r, ?Bool.orb_false_l;
  reflexivity.

Ltac clear_byte_bits :=
  repeat match goal with
  | |- context [Z.testbit (byte.unsigned ?b) ?i] =>
      rewrite (high_bits_clear (byte.unsigned b) 8 i) by lia
  | |- context [Z.testbit ?x ?i] => rewrite (Z.testbit_neg_r x i) by lia
  end;
  cbn [andb orb negb];
  rewrite ?Bool.andb_true_r, ?Bool.andb_false_r, ?Bool.orb_false_r, ?Bool.orb_false_l;
  reflexivity.

(** Reading back the four bytes written for a 32-bit value gives the value. *)
Lemma BigEndian_Uint32_be32 (v : Z) (sp : list byte) :
  0 ≤ v < 2 ^ 32 → BigEndian_Uint32 (mkSlice (be32 v) sp) = Some v.
Proof.
  intros Hv. unfold BigEndian_Uint32, be32, index. cbn.
  f_equal. unfold word32. rewrite !byte.unsigned_of_Z. unfold byte.wrap.
  rewrite <- !Z.land_ones by lia.
  Z.bitblast; clear_high_bits v 32.
Qed.

Lemma BigEndian_Uint16_be16 (v : Z) (sp : list byte) :
  0 ≤ v < 2 ^ 16 → BigEndian_Uint16 (mkSlice (be16 v) sp) = Some v.
Proof.
  intros Hv. unfold BigEndian_Uint16, be16, index. cbn.
  f_equal. unfold word16. rewrite !byte.unsigned_of_Z. unfold byte.wrap.
  rewrite <- !Z.land_ones by lia.
  Z.bitblast; clear_high_bits v 16.
Qed.

(** Writing the value read from four bytes gives the four bytes back. *)
Lemma be32_BigEndian_Uint32 (b0 b1 b2 b3 : byte) (sp : list byte) (v : Z) :
  BigEndian_Uint32 (mkSlice [b0; b1; b2; b3] sp) = Some v →
  be32 v = [b0; b1; b2; b3].
Proof.
  unfold BigEndian_Uint32, index. cbn. intros [= <-].
  pose proof (byte.unsigned_range b0). pose proof (byte.unsigned_range b1).
  pose proof (byte.unsigned_range b2). pose proof (byte.unsigned_range b3).
  unfold be32, word32.
  repeat f_equal; apply byte.unsigned_inj;
    rewrite byte.unsigned_of_Z; unfold byte.wrap;
    rewrite <- Z.land_ones by lia; Z.bitblast; clear_byte_bits.
Qed.

(** The low byte of a 16-bit read is its second byte. *)
Lemma BigEndian_Uint16_low (b0 b1 : byte) (sp : list byte) (v : Z) :
  BigEndian_Uint16 (mkSlice [b0; b1] sp) = Some v → byte.of_Z v = b1.
Proof.
  unfold BigEndian_Uint16, index. cbn. intros [= <-].
  pose proof (byte.unsigned_range b1).
  apply byte.unsigned_inj. unfold word16.
  rewrite byte.unsigned_of_Z; unfold byte.wrap.
  rewrite <- Z.land_ones by lia. Z.bitblast; clear_byte_bits.
Qed.

(** ** Slices and the classifier predicates *)

Lemma elems_5 (buf : slice) :
  (5 ≤ len buf)%nat →
  ∃ b0 b1 b2 b3 b4 rest, elems buf = b0 :: b1 :: b2 :: b3 :: b4 :: rest.
Proof.
  unfold len. intros H.
  destruct (elems buf) as [|b0 [|b1 [|b2 [|b3 [|b4 rest]]]]];
    simpl in H; try lia.
  by exists b0, b1, b2, b3, b4, rest.
Qed.

Lemma elems_8 (buf : slice) :
  (8 ≤ len buf)%nat →
  ∃ b0 b1 b2 b3 b4 b5 b6 b7 rest,
    elems buf = b0 :: b1 :: b2 :: b3 :: b4 :: b5 :: b6 :: b7 :: rest.
Proof.
  unfold len. intros H.
  destruct (elems buf)
    as [|b0 [|b1 [|b2 [|b3 [|b4 [|b5 [|b6 [|b7 rest]]]]]]]];
    simpl in H; try lia.
  by exists b0, b1, b2, b3, b4, b5, b6, b7, rest.
Qed.

(** A slice expression within the length yields those visible bytes. *)
Lemma reslice_within (s : slice) (lo hi : nat) :
  (lo ≤ hi ≤ len s)%nat →
  ∃ s', reslice s lo hi = Some s'
        ∧ elems s' = take (hi - lo) (drop lo (elems s)).
Proof.
  unfold reslice, len, cap. intros H.
  rewrite decide_True by (rewrite length_app; lia).
  eexists; split; [reflexivity|]. cbn.
  rewrite drop_app_le by lia.
  rewrite take_app_le; [done|]. rewrite length_drop. lia.
Qed.

(** A slice expression beyond the capacity panics. *)
Lemma reslice_beyond (s : slice) (lo hi : nat) :
  (cap s < hi)%nat → reslice s lo hi = None.
Proof. unfold reslice. intros H. rewrite decide_False; [done|lia]. Qed.

Lemma isChallenge_5 (b0 b1 b2 b3 b4 : byte) (rest sp : list byte) :
  isChallenge (mkSlice (b0 :: b1 :: b2 :: b3 :: b4 :: rest) sp)
  = Some (bool_decide ([b0; b1; b2; b3; b4]
                       = [Byte.x00; Byte.x00; Byte.x00; Byte.x00; Byte.x00])).
Proof.
  unfold isChallenge, reslice, cap. cbn [elems spare].
  rewrite decide_True by (cbn; lia). reflexivity.
Qed.

Lemma isChallenge_short (buf : slice) :
  (cap buf < 5)%nat → isChallenge buf = None.
Proof. intros H. unfold isChallenge. by rewrite reslice_beyond. Qed.

Lemma isQuery_cons (b0 : byte) (rest sp : list byte) :
  isQuery (mkSlice (b0 :: rest) sp) = Some (bool_decide (b0 = Byte.x01)).
Proof. reflexivity. Qed.

(** ** The two handlers *)

Section Handlers.

Context {QueryState : Type}.
Variable conv : QueryState -> ServerInfo.
Implicit Types (q : @QueryResponder QueryState) (buf : slice).

Lemma handleQuery_no_challenge q A buf :
  challenges q !! A = None →
  handleQuery conv q A buf = Some (consumed q A, ([], Some errNoChallenge)).
Proof. intros H. unfold handleQuery. by rewrite H. Qed.

Lemma handleQuery_short q A buf T :
  challenges q !! A = Some T → (len buf < 8)%nat →
  handleQuery conv q A buf
  = Some (consumed q A, ([], Some errPacketNotLongEnough)).
Proof.
  intros H Hl. unfold handleQuery. rewrite H.
  by rewrite decide_True by exact Hl.
Qed.

Lemma handleQuery_8 q A T (b0 b1 b2 b3 b4 b5 b6 b7 : byte) (rest sp : list byte) :
  challenges q !! A = Some T →
  handleQuery conv q A
    (mkSlice (b0 :: b1 :: b2 :: b3 :: b4 :: b5 :: b6 :: b7 :: rest) sp)
  = Some (consumed q A, queryOutcome conv (consumed q A) T b1 b2 b3 b4 b5 b6 b7).
Proof.
  intros H. unfold handleQuery, queryOutcome. rewrite H.
  rewrite decide_False by (cbn; lia).
  unfold reslice, cap. cbn [elems spare].
  rewrite !decide_True by (cbn; lia). cbn.
  destruct (decide (word32 b1 b2 b3 b4 ≠ T)); [done|].
  destruct (decide (word16 b5 b6 ≠ 1)); done.
Qed.

(** [handleQuery] returns on every packet. *)
Lemma handleQuery_returns q A buf :
  ∃ r, handleQuery conv q A buf = Some (consumed q A, r).
Proof.
  destruct (challenges q !! A) as [T|] eqn:HT.
  - destruct (decide (len buf < 8)%nat) as [Hl|Hl].
    + eexists. by apply handleQuery_short with T.
    + destruct (elems_8 buf) as (b0&b1&b2&b3&b4&b5&b6&b7&rest&E); [lia|].
      destruct buf as [el sp]. cbn in E. subst el.
      eexists. by apply handleQuery_8.
  - eexists. by apply handleQuery_no_challenge.
Qed.

Lemma handleChallenge_eq q rnd A :
  handleChallenge q rnd A
  = (mkResponder (<[A := uint32 rnd]> (challenges q)) (state q),
     (Byte.x00 :: be32 (uint32 rnd), None)).
Proof. reflexivity. Qed.

(** The three cases of the switch in [Respond]. *)
Lemma Respond_challenge q rnd A buf :
  isChallenge buf = Some true →
  Respond conv q rnd A buf = Some (handleChallenge q rnd A).
Proof. intros H. unfold Respond. by rewrite H. Qed.

Lemma Respond_query q rnd A buf :
  queryClassified buf →
  Respond conv q rnd A buf = handleQuery conv q A buf.
Proof. intros [H1 H2]. unfold Respond. by rewrite H1, H2. Qed.

Lemma Respond_unsupported q rnd A buf :
  isChallenge buf = Some false → isQuery buf = Some false →
  Respond conv q rnd A buf = Some (q, ([], Some errUnsupportedQuery)).
Proof. intros H1 H2. unfold Respond. by rewrite H1, H2. Qed.

(** Every return of [Respond] comes from one of the three cases. *)
Lemma Respond_cases q rnd A buf q' r :
  Respond conv q rnd A buf = Some (q', r) →
  (isChallenge buf = Some true ∧ (q', r) = handleChallenge q rnd A)
  ∨ (queryClassified buf ∧ handleQuery conv q A buf = Some (q', r))
  ∨ (isChallenge buf = Some false ∧ isQuery buf = Some false
     ∧ q' = q ∧ r = ([], Some errUnsupportedQuery)).
Proof.
  unfold Respond, queryClassified.
  destruct (isChallenge buf) as [[|]|]; cbn; [| |done].
  - intros H. left. split; [done|]. congruence.
  - destruct (isQuery buf) as [[|]|]; cbn; [| |done].
    + intros H. right; left. done.
    + intros [= <- <-]. right; right. done.
Qed.

(** A buffer of at least 5 bytes never makes [Respond] panic. *)
Lemma Respond_returns q rnd A buf :
  (5 ≤ len buf)%nat → is_Some (Respond conv q rnd A buf).
Proof.
  intros H. destruct (elems_5 buf H) as (b0&b1&b2&b3&b4&rest&E).
  destruct buf as [el sp]. cbn in E. subst el.
  unfold Respond. rewrite isChallenge_5.
  destruct (bool_decide _); cbn; [done|].
  destruct (bool_decide _); cbn; [|done].
  destruct (handleQuery_returns q A
    (mkSlice (b0 :: b1 :: b2 :: b3 :: b4 :: rest) sp)) as [r ->].
  done.
Qed.

End Handlers.


(** ** The classifier predicates *)

(** C7: the classifier predicates take the buffer alone and decide the
    packet kind by its first bytes: on a buffer of at least 5 bytes
    [isChallenge] returns, and returns true exactly when the first 5 bytes
    are all zero, whatever follows them; on a non-empty buffer [isQuery]
    returns, and returns true exactly when byte 0 is 1. *)
Theorem classifier_decides_kind (buf : slice) :
  ((5 ≤ len buf)%nat →
     ∃ c, isChallenge buf = Some c
          ∧ (c = true ↔ take 5 (elems buf)
                         = [Byte.x00; Byte.x00; Byte.x00; Byte.x00; Byte.x00]))
  ∧ ((1 ≤ len buf)%nat →
     ∃ y, isQuery buf = Some y ∧ (y = true ↔ elems buf !! 0%nat = Some Byte.x01)).
Proof.
  split.
  - intros H. destruct (elems_5 buf H) as (b0&b1&b2&b3&b4&rest&E).
    destruct buf as [el sp]. cbn in E. subst el.
    eexists. split; [apply isChallenge_5|]. cbn [elems take].
    rewrite bool_decide_eq_true. reflexivity.
  - unfold len. intros H. destruct buf as [[|b0 rest] sp]; cbn in H; [lia|].
    eexists. split; [apply isQuery_cons|]. cbn.
    rewrite bool_decide_eq_true. split; congruence.
Qed.

Lemma classifier_decides_kind_witness :
  (∃ c, isChallenge (bytes_lit [Byte.x00; Byte.x00; Byte.x00; Byte.x00; Byte.x00; Byte.x2a])
        = Some c
        ∧ (c = true ↔ [Byte.x00; Byte.x00; Byte.x00; Byte.x00; Byte.x00]
                       = [Byte.x00; Byte.x00; Byte.x00; Byte.x00; Byte.x00]))
  ∧ (∃ y, isQuery (bytes_lit [Byte.x01; Byte.x07]) = Some y
          ∧ (y = true ↔ Some Byte.x01 = Some Byte.x01)).
Proof.
  split.
  - apply (classifier_decides_kind
      (bytes_lit [Byte.x00; Byte.x00; Byte.x00; Byte.x00; Byte.x00; Byte.x2a])).
    cbn. lia.
  - apply (classifier_decides_kind (bytes_lit [Byte.x01; Byte.x07])).
    cbn. lia.
Defined.

Section Claims.

Context {QueryState : Type}.
Variable conv : QueryState -> ServerInfo.
Implicit Types (q : @QueryResponder QueryState) (buf : slice).

(** ** Challenge requests *)

(** C6: on every challenge request [Respond] draws a token [T], stores it
    for the requesting address and returns, without error, exactly the 5
    bytes 0x00 followed by [T] big-endian: the four bytes written read back
    as [T]. *)
Theorem challenge_response_bytes q rnd A buf :
  isChallenge buf = Some true →
  let T := uint32 rnd in
  Respond conv q rnd A buf
  = Some (mkResponder (<[A := T]> (challenges q)) (state q),
          ([Byte.x00; byte.of_Z (Z.shiftr T 24); byte.of_Z (Z.shiftr T 16);
            byte.of_Z (Z.shiftr T 8); byte.of_Z T], None))
  ∧ BigEndian_Uint32
      (bytes_lit [byte.of_Z (Z.shiftr T 24); byte.of_Z (Z.shiftr T 16);
                  byte.of_Z (Z.shiftr T 8); byte.of_Z T]) = Some T.
Proof.
  intros H T. split.
  - rewrite Respond_challenge by exact H. by rewrite handleChallenge_eq.
  - apply (BigEndian_Uint32_be32 T []). apply uint32_range.
Qed.

(** ** The challenge store *)

(** C9: a call for address [A] leaves the entry of every other address
    [B] as it was. *)
Theorem other_addresses_untouched q rnd A B buf q' r :
  A ≠ B →
  Respond conv q rnd A buf = Some (q', r) →
  challenges q' !! B = challenges q !! B.
Proof.
  intros Hne H.
  destruct (Respond_cases conv q rnd A buf q' r H)
    as [[_ E]|[[_ E]|(_&_&->&_)]]; [| |done].
  - rewrite handleChallenge_eq in E. injection E as -> _. cbn.
    by rewrite lookup_insert_ne.
  - destruct (handleQuery_returns conv q A buf) as [r' E'].
    rewrite E' in E. injection E as <- _. cbn.
    by rewrite lookup_delete_ne.
Qed.

(** C8: the store holds at most one token per address after every call.
    A challenge request from [A] returns and leaves the token just drawn as
    the one and only token of [A], whatever was stored for [A] before; a
    query from [A] returns, whatever its outcome, and leaves no token for
    [A]; and in the store left by any returning call no address has two
    tokens. *)
Theorem one_token_per_address q rnd A buf :
  (isChallenge buf = Some true →
     (∃ r, Respond conv q rnd A buf
           = Some (mkResponder (<[A := uint32 rnd]> (challenges q)) (state q), r))
     ∧ ∀ t, (A, t) ∈ map_to_list (<[A := uint32 rnd]> (challenges q))
            ↔ t = uint32 rnd)
  ∧ (queryClassified buf →
     (∃ r, Respond conv q rnd A buf = Some (consumed q A, r))
     ∧ challenges (consumed q A) = delete A (challenges q)
     ∧ ∀ t, (A, t) ∉ map_to_list (challenges (consumed q A)))
  ∧ (∀ q' r, Respond conv q rnd A buf = Some (q', r) →
       ∀ a t1 t2, (a, t1) ∈ map_to_list (challenges q') →
                  (a, t2) ∈ map_to_list (challenges q') → t1 = t2).
Proof.
  split; [|split].
  - intros Hc. split.
    + eexists. rewrite Respond_challenge by exact Hc.
      by rewrite handleChallenge_eq.
    + intros t. rewrite elem_of_map_to_list, lookup_insert_eq.
      split; congruence.
  - intros Hq. split; [|split].
    + rewrite Respond_query by exact Hq.
      apply handleQuery_returns.
    + reflexivity.
    + intros t. rewrite elem_of_map_to_list. cbn.
      by rewrite lookup_delete_eq.
  - intros q' r _ a t1 t2 H1 H2.
    apply elem_of_map_to_list in H1, H2. congruence.
Qed.

(** ** Queries *)

Lemma queryPacket_classified (T ver : Z) (chunks : byte) :
  queryClassified (queryPacket T ver chunks).
Proof. split; reflexivity. Qed.

Lemma queryOutcome_error_nil q T (b1 b2 b3 b4 b5 b6 b7 : byte) resp e :
  queryOutcome conv q T b1 b2 b3 b4 b5 b6 b7 = (resp, Some e) → resp = [].
Proof.
  unfold queryOutcome.
  destruct (decide (word32 b1 b2 b3 b4 ≠ T)); [congruence|].
  destruct (decide (word16 b5 b6 ≠ 1)); [congruence|].
  cbn. congruence.
Qed.

Lemma handleQuery_error_nil q A buf q' resp e :
  handleQuery conv q A buf = Some (q', (resp, Some e)) → resp = [].
Proof.
  destruct (challenges q !! A) as [T|] eqn:HT.
  - destruct (decide (len buf < 8)%nat) as [Hl|Hl].
    + rewrite (handleQuery_short conv q A buf T HT Hl). congruence.
    + destruct (elems_8 buf) as (b0&b1&b2&b3&b4&b5&b6&b7&rest&E); [lia|].
      destruct buf as [el sp]. cbn in E. subst el.
      rewrite (handleQuery_8 conv q A T) by exact HT.
      intros [= _ H]. by apply queryOutcome_error_nil in H.
  - rewrite (handleQuery_no_challenge conv q A buf HT). congruence.
Qed.

(** C3: whenever [Respond] returns an error it returns no response bytes;
    in particular a query of at least 8 bytes from an address holding a
    token [T], whose bytes 1 to 4 are not [T] big-endian, fails with the
    challenge-mismatch error and no bytes. *)
Theorem errors_carry_no_bytes q rnd A buf :
  (∀ q' resp e,
     Respond conv q rnd A buf = Some (q', (resp, Some e)) → resp = [])
  ∧ (∀ T, challenges q !! A = Some T → queryClassified buf →
          (8 ≤ len buf)%nat → take 4 (drop 1 (elems buf)) ≠ be32 T →
          Respond conv q rnd A buf
          = Some (consumed q A, ([], Some errChallengeMismatch))).
Proof.
  split.
  - intros q' resp e H.
    destruct (Respond_cases conv q rnd A buf _ _ H)
      as [[_ E]|[[_ E]|(_&_&_&E)]].
    + rewrite handleChallenge_eq in E. congruence.
    + by apply handleQuery_error_nil in E.
    + congruence.
  - intros T HT Hq Hl Hne. rewrite Respond_query by exact Hq.
    destruct (elems_8 buf Hl) as (b0&b1&b2&b3&b4&b5&b6&b7&rest&E).
    destruct buf as [el sp]. cbn in E. subst el. cbn in Hne.
    rewrite (handleQuery_8 conv q A T) by exact HT.
    unfold queryOutcome. rewrite decide_True; [done|].
    intros Heq. apply Hne. symmetry.
    apply (be32_BigEndian_Uint32 b1 b2 b3 b4 []). cbn. by rewrite Heq.
Qed.

(** C10: two queries of at least 8 bytes that agree on their first 8
    bytes get the same result from the same responder: same store
    afterwards, same response bytes, same error. *)
Theorem query_reads_first_8_bytes q rnd A buf1 buf2 :
  queryClassified buf1 → queryClassified buf2 →
  (8 ≤ len buf1)%nat → (8 ≤ len buf2)%nat →
  take 8 (elems buf1) = take 8 (elems buf2) →
  Respond conv q rnd A buf1 = Respond conv q rnd A buf2.
Proof.
  intros Hq1 Hq2 Hl1 Hl2 Heq.
  rewrite !Respond_query by assumption.
  destruct (elems_8 buf1 Hl1) as (a0&a1&a2&a3&a4&a5&a6&a7&rest1&E1).
  destruct (elems_8 buf2 Hl2) as (b0&b1&b2&b3&b4&b5&b6&b7&rest2&E2).
  destruct buf1 as [el1 sp1], buf2 as [el2 sp2]. cbn in E1, E2. subst.
  cbn in Heq. injection Heq as -> -> -> -> -> -> -> ->.
  destruct (challenges q !! A) as [T|] eqn:HT.
  - by rewrite !(handleQuery_8 conv q A T) by exact HT.
  - by rewrite !handleQuery_no_challenge by exact HT.
Qed.

Lemma consumed_absent q A :
  challenges q !! A = None → consumed q A = q.
Proof.
  intros H. destruct q as [m st]. unfold consumed. cbn in *.
  f_equal. by apply delete_id.
Qed.

(** C2: a stored token is consumed by the first query, whatever its
    outcome.  For an address holding a (32-bit) token [T], the query packet
    carrying [T], version 1 and no chunks is answered without error; and
    once any query from the address has been processed, the next query
    from it fails with the no-challenge error. *)
Theorem token_single_use q rnd A :
  (∀ T, challenges q !! A = Some T → 0 ≤ T < 2 ^ 32 →
        ∃ resp, Respond conv q rnd A (queryPacket T 1 Byte.x00)
                = Some (consumed q A, (resp, None)))
  ∧ (∀ buf1 q1 r1 rnd2 buf2,
        queryClassified buf1 → Respond conv q rnd A buf1 = Some (q1, r1) →
        queryClassified buf2 →
        Respond conv q1 rnd2 A buf2 = Some (q1, ([], Some errNoChallenge))).
Proof.
  split.
  - intros T HT Hr.
    rewrite Respond_query by apply queryPacket_classified.
    unfold queryPacket, bytes_lit, be32, be16. cbn [app].
    rewrite (handleQuery_8 conv q A T) by exact HT.
    unfold queryOutcome.
    pose proof (BigEndian_Uint32_be32 T [] Hr) as HB.
    unfold be32, BigEndian_Uint32, index in HB. cbn in HB.
    injection HB as HB. rewrite HB.
    rewrite decide_False by (intros Hn; by apply Hn).
    rewrite decide_False by (intros Hn; by apply Hn).
    by eexists.
  - intros buf1 q1 r1 rnd2 buf2 Hq1 H1 Hq2.
    rewrite Respond_query in H1 by exact Hq1.
    destruct (handleQuery_returns conv q A buf1) as [r' E'].
    rewrite E' in H1. injection H1 as <- _.
    rewrite Respond_query by exact Hq2.
    assert (Hnone : challenges (consumed q A) !! A = None)
      by apply lookup_delete_eq.
    rewrite handleQuery_no_challenge by exact Hnone.
    by rewrite consumed_absent.
Qed.

(** Every stored token is a 32-bit value, and stays so. *)
Lemma tokens_stay_32_bit q rnd A buf q' r :
  map_Forall (λ _ t, 0 ≤ t < 2 ^ 32) (challenges q) →
  Respond conv q rnd A buf = Some (q', r) →
  map_Forall (λ _ t, 0 ≤ t < 2 ^ 32) (challenges q').
Proof.
  intros Hwf H.
  destruct (Respond_cases conv q rnd A buf q' r H)
    as [[_ E]|[[_ E]|(_&_&->&_)]]; [| |done].
  - rewrite handleChallenge_eq in E. injection E as -> _. cbn.
    apply map_Forall_insert_2; [apply uint32_range|done].
  - destruct (handleQuery_returns conv q A buf) as [r' E'].
    rewrite E' in E. injection E as <- _. cbn.
    by apply map_Forall_delete.
Qed.

Lemma land_1_bit0 (x : Z) :
  Z.land x 1 = if Z.testbit x 0 then 1 else 0.
Proof.
  change 1 with (Z.ones 1) at 1. rewrite Z.land_ones by lia.
  change (2 ^ 1) with 2. rewrite <- Z.bit0_mod.
  by destruct (Z.testbit x 0).
Qed.

Lemma queryRecord_consumed q A T (chunks : byte) :
  queryRecord conv (consumed q A) T chunks = queryRecord conv q T chunks.
Proof. reflexivity. Qed.

(** C5, as the code has it: the record of every successful query response
    has header 1, the consumed token as challenge, version 1 and packet
    numbers 0 and 0.  With bit 0 of byte 7 set, the server info is the
    converted query state, serverInfoLength is its Size, and payloadLength
    is serverInfoLength + 4 reduced to the 16 bits of the field, which is
    serverInfoLength + 4 whenever that fits (serverInfoLength <= 65531).
    With bit 0 clear, both lengths are 0 and the server-info block is
    empty. *)
Theorem query_response_record q rnd A buf T q' resp :
  challenges q !! A = Some T → queryClassified buf →
  Respond conv q rnd A buf = Some (q', (resp, None)) →
  ∃ chunks, index buf 7 = Some chunks ∧
    let f := queryRecord conv q T chunks in
    resp = (WireWrite_query [] f).1
    ∧ q_Header f = Byte.x01 ∧ q_Challenge f = T ∧ q_SQPVersion f = 1
    ∧ q_CurrentPacketNum f = Byte.x00 ∧ q_LastPacketNum f = Byte.x00
    ∧ (Z.testbit (byte.unsigned chunks) 0 = true →
         q_ServerInfo f = conv (state q)
         ∧ q_ServerInfoLength f = Size (q_ServerInfo f)
         ∧ q_PayloadLength f = (q_ServerInfoLength f + 4) mod 2 ^ 16
         ∧ (q_ServerInfoLength f ≤ 65531 →
            q_PayloadLength f = q_ServerInfoLength f + 4))
    ∧ (Z.testbit (byte.unsigned chunks) 0 = false →
         q_ServerInfoLength f = 0 ∧ q_PayloadLength f = 0
         ∧ q_ServerInfo f = []).
Proof.
  intros HT Hq H. rewrite Respond_query in H by exact Hq.
  destruct (decide (len buf < 8)%nat) as [Hl|Hl].
  { rewrite (handleQuery_short conv q A buf T HT Hl) in H. congruence. }
  destruct (elems_8 buf) as (b0&b1&b2&b3&b4&b5&b6&b7&rest&E); [lia|].
  destruct buf as [el sp]. cbn in E. subst el.
  rewrite (handleQuery_8 conv q A T) in H by exact HT.
  injection H as _ H. unfold queryOutcome in H.
  destruct (decide (word32 b1 b2 b3 b4 ≠ T)); [congruence|].
  destruct (decide (word16 b5 b6 ≠ 1)); [congruence|].
  injection H as <-. rewrite queryRecord_consumed.
  exists b7. split; [reflexivity|]. cbv zeta.
  unfold queryRecord. rewrite land_1_bit0.
  destruct (Z.testbit (byte.unsigned b7) 0); cbn -[Z.pow Size uint16 Z.add].
  - do 6 (split; [reflexivity|]). split; [intros _|discriminate].
    split; [reflexivity|]. split; [reflexivity|].
    assert (Hpl : uint16 (0 + uint16 (uint16 (Size (conv (state q))) + 4))
                  = (Size (conv (state q)) + 4) mod 2 ^ 16).
    { unfold uint16. rewrite Z.add_0_l, Z.mod_mod by lia.
      by rewrite Z.add_mod_idemp_l by lia. }
    split; [exact Hpl|].
    intros Hfit. rewrite Hpl. apply Z.mod_small.
    pose proof (uint32_range (Z.of_nat (length (conv (state q))))).
    unfold Size in *. lia.
  - do 6 (split; [reflexivity|]). split; [discriminate|].
    intros _. by repeat split.
Qed.

(** C1, what the code does on short buffers: every buffer whose capacity
    is under 5 bytes makes [Respond] panic in the slice expression
    [buf[0:5]] of [isChallenge], before the length check of [handleQuery]
    is reached; such a buffer is neither treated as a non-match nor
    answered with the packet-not-long-enough error.  (Buffers of at least 5
    bytes are safe: [Respond_returns].) *)
Theorem Respond_panics_under_5_bytes q rnd A buf :
  (cap buf < 5)%nat → Respond conv q rnd A buf = None.
Proof.
  intros H. unfold Respond. by rewrite isChallenge_short.
Qed.

(** C4, what the code does: a query carrying the stored token and a 16-bit
    version [v] other than 1 fails with the unsupported-version error and
    no response bytes, but the error carries byte 6 of the packet, the low
    byte of [v], and not [v]: it is [v] only for [v < 256]. *)
Theorem unsupported_version_reports_byte_6 q rnd A T v (chunks : byte) :
  challenges q !! A = Some T → 0 ≤ T < 2 ^ 32 → 0 ≤ v < 2 ^ 16 → v ≠ 1 →
  Respond conv q rnd A (queryPacket T v chunks)
  = Some (consumed q A, ([], Some (errUnsupportedVersion (byte.of_Z v)))).
Proof.
  intros HT Hr Hv Hne.
  rewrite Respond_query by apply queryPacket_classified.
  unfold queryPacket, bytes_lit, be32, be16. cbn [app].
  rewrite (handleQuery_8 conv q A T) by exact HT.
  unfold queryOutcome.
  pose proof (BigEndian_Uint32_be32 T [] Hr) as HB.
  unfold be32, BigEndian_Uint32, index in HB. cbn in HB.
  injection HB as HB. rewrite HB.
  pose proof (BigEndian_Uint16_be16 v [] Hv) as HW.
  unfold be16, BigEndian_Uint16, index in HW. cbn in HW.
  injection HW as HW. rewrite HW.
  rewrite decide_False by (intros Hn; by apply Hn).
  by rewrite decide_True by exact Hne.
Qed.

End Claims.

(** A one-byte datagram held in a larger array is classified by the
    bytes past its length. *)
Example isChallenge_reads_spare_capacity :
  isChallenge (mkSlice [Byte.x00] [Byte.x00; Byte.x00; Byte.x00; Byte.x00])
  = Some true.
Proof. reflexivity. Qed.

(** A query of 5 to 7 bytes from an address holding a token fails with the
    packet-not-long-enough error. *)
Example short_query_with_token_is_rejected :
  Respond (λ _ : unit, [Byte.x2a]) (mkResponder {["A"%string := 7]} tt) 0 "A"
    (bytes_lit [Byte.x01; Byte.x00; Byte.x00; Byte.x00; Byte.x07])
  = Some (mkResponder ∅ tt, ([], Some errPacketNotLongEnough)).
Proof. vm_compute. reflexivity. Qed.

(** ** Concrete runs

    The responder below serves a one-byte server info; the addresses are
    ["A"] and ["B"]. *)

Lemma challenge_response_bytes_witness :
  Respond (λ _ : unit, [Byte.x2a]) (mkResponder {["A"%string := 7]} tt) 258 "A"
    (bytes_lit [Byte.x00; Byte.x00; Byte.x00; Byte.x00; Byte.x00; Byte.xff])
  = Some (mkResponder {["A"%string := 258]} tt,
          ([Byte.x00; Byte.x00; Byte.x00; Byte.x01; Byte.x02], None)).
Proof.
  destruct (challenge_response_bytes (λ _ : unit, [Byte.x2a])
              (mkResponder {["A"%string := 7]} tt) 258 "A"
              (bytes_lit [Byte.x00; Byte.x00; Byte.x00; Byte.x00; Byte.x00; Byte.xff])
              eq_refl) as [H _].
  rewrite H. vm_compute. reflexivity.
Defined.

Lemma other_addresses_untouched_witness :
  challenges (mkResponder {["B"%string := 9]} tt) !! "B"%string
  = challenges (mkResponder {["A"%string := 7; "B"%string := 9]} tt) !! "B"%string.
Proof.
  apply (other_addresses_untouched (λ _ : unit, [Byte.x2a])
           (mkResponder {["A"%string := 7; "B"%string := 9]} tt) 0 "A" "B"
           (queryPacket 7 1 Byte.x00)
           (mkResponder {["B"%string := 9]} tt)
           ([Byte.x01; Byte.x00; Byte.x00; Byte.x00; Byte.x07; Byte.x00;
             Byte.x01; Byte.x00; Byte.x00; Byte.x00; Byte.x00; Byte.x00;
             Byte.x00; Byte.x00; Byte.x00], None)).
  - discriminate.
  - vm_compute. reflexivity.
Defined.

Lemma one_token_per_address_witness :
  ((∃ r, Respond (λ _ : unit, [Byte.x2a]) (mkResponder {["A"%string := 7]} tt)
           258 "A"
           (bytes_lit [Byte.x00; Byte.x00; Byte.x00; Byte.x00; Byte.x00])
         = Some (mkResponder {["A"%string := 258]} tt, r))
   ∧ ∀ t, (("A"%string, t) ∈ map_to_list (<["A"%string := 258]> ({["A"%string := 7]} : gmap string Z)))
          ↔ t = 258)
  ∧ ((∃ r, Respond (λ _ : unit, [Byte.x2a]) (mkResponder {["A"%string := 258]} tt)
             0 "A" (queryPacket 9 1 Byte.x00)
           = Some (mkResponder ∅ tt, r))
     ∧ ∀ t, ("A"%string, t) ∉ map_to_list (∅ : gmap string Z)).
Proof.
  split.
  - destruct (one_token_per_address (λ _ : unit, [Byte.x2a])
                (mkResponder {["A"%string := 7]} tt) 258 "A"
                (bytes_lit [Byte.x00; Byte.x00; Byte.x00; Byte.x00; Byte.x00]))
      as [H _].
    destruct (H eq_refl) as [[r Hr] Hone]. split.
    + exists r. etransitivity; [exact Hr|]. f_equal.
    + exact Hone.
  - destruct (one_token_per_address (λ _ : unit, [Byte.x2a])
                (mkResponder {["A"%string := 258]} tt) 0 "A"
                (queryPacket 9 1 Byte.x00))
      as (_ & H & _).
    destruct (H (queryPacket_classified 9 1 Byte.x00)) as ([r Hr] & _ & Hnone).
    split.
    + exists r. etransitivity; [exact Hr|]. f_equal.
    + exact Hnone.
Defined.

Lemma errors_carry_no_bytes_witness :
  Respond (λ _ : unit, [Byte.x2a]) (mkResponder {["A"%string := 7]} tt) 0 "A"
    (queryPacket 8 1 Byte.x00)
  = Some (mkResponder ∅ tt, ([], Some errChallengeMismatch)).
Proof.
  destruct (errors_carry_no_bytes (λ _ : unit, [Byte.x2a])
              (mkResponder {["A"%string := 7]} tt) 0 "A"
              (queryPacket 8 1 Byte.x00)) as [_ H].
  rewrite (H 7).
  - vm_compute. reflexivity.
  - reflexivity.
  - apply queryPacket_classified.
  - cbn. lia.
  - vm_compute. discriminate.
Defined.

Lemma query_reads_first_8_bytes_witness :
  Respond (λ _ : unit, [Byte.x2a]) (mkResponder {["A"%string := 7]} tt) 0 "A"
    (bytes_lit [Byte.x01; Byte.x00; Byte.x00; Byte.x00; Byte.x07; Byte.x00;
                Byte.x01; Byte.x01; Byte.xaa])
  = Respond (λ _ : unit, [Byte.x2a]) (mkResponder {["A"%string := 7]} tt) 0 "A"
      (bytes_lit [Byte.x01; Byte.x00; Byte.x00; Byte.x00; Byte.x07; Byte.x00;
                  Byte.x01; Byte.x01; Byte.xbb; Byte.xcc]).
Proof.
  apply (query_reads_first_8_bytes (λ _ : unit, [Byte.x2a])).
  - split; reflexivity.
  - split; reflexivity.
  - cbn. lia.
  - cbn. lia.
  - reflexivity.
Defined.

Lemma token_single_use_witness :
  (∃ resp, Respond (λ _ : unit, [Byte.x2a]) (mkResponder {["A"%string := 7]} tt)
             0 "A" (queryPacket 7 1 Byte.x00)
           = Some (mkResponder ∅ tt, (resp, None)))
  ∧ Respond (λ _ : unit, [Byte.x2a]) (mkResponder ∅ tt)
      0 "A" (queryPacket 7 1 Byte.x00)
    = Some (mkResponder ∅ tt, ([], Some errNoChallenge)).
Proof.
  destruct (token_single_use (λ _ : unit, [Byte.x2a])
              (mkResponder {["A"%string := 7]} tt) 0 "A") as [Ha Hb].
  split.
  - destruct (Ha 7) as [resp E]; [reflexivity|lia|].
    exists resp. rewrite E. vm_compute. reflexivity.
  - apply (Hb (queryPacket 7 1 Byte.x00) (mkResponder ∅ tt)
              ([Byte.x01; Byte.x00; Byte.x00; Byte.x00; Byte.x07; Byte.x00;
                Byte.x01; Byte.x00; Byte.x00; Byte.x00; Byte.x00; Byte.x00;
                Byte.x00; Byte.x00; Byte.x00], None)).
    + apply queryPacket_classified.
    + vm_compute. reflexivity.
    + apply queryPacket_classified.
Defined.

Lemma query_response_record_witness :
  ∃ chunks,
    index (queryPacket 7 1 Byte.x01) 7 = Some chunks
    ∧ q_PayloadLength (queryRecord (λ _ : unit, [Byte.x2a])
                         (mkResponder {["A"%string := 7]} tt) 7 chunks) = 5.
Proof.
  destruct (query_response_record (λ _ : unit, [Byte.x2a])
              (mkResponder {["A"%string := 7]} tt) 0 "A"
              (queryPacket 7 1 Byte.x01) 7 (mkResponder ∅ tt)
              [Byte.x01; Byte.x00; Byte.x00; Byte.x00; Byte.x07; Byte.x00;
               Byte.x01; Byte.x00; Byte.x00; Byte.x00; Byte.x05; Byte.x00;
               Byte.x00; Byte.x00; Byte.x01; Byte.x2a])
    as (chunks & Hc & _ & _ & _ & _ & _ & _ & Hset & _).
  - reflexivity.
  - apply queryPacket_classified.
  - vm_compute. reflexivity.
  - exists chunks. split; [exact Hc|].
    injection Hc as <-.
    destruct Hset as (_ & _ & _ & Hfit); [reflexivity|].
    rewrite Hfit; vm_compute; [reflexivity|discriminate].
Defined.

(** C5, the claim as written fails: for a server info of 65532 bytes,
    requested by bit 0, the response record has serverInfoLength 65532 and
    payloadLength 0, not 65536. *)
Lemma payload_length_wraps_at_65532 :
  ∃ f,
    Respond (λ _ : unit, replicate (Z.to_nat 65532) Byte.x00)
      (mkResponder {["A"%string := 7]} tt) 0 "A" (queryPacket 7 1 Byte.x01)
    = Some (mkResponder ∅ tt, ((WireWrite_query [] f).1, None))
    ∧ Z.testbit (byte.unsigned Byte.x01) 0 = true
    ∧ q_ServerInfoLength f = 65532
    ∧ q_PayloadLength f = 0
    ∧ q_PayloadLength f ≠ q_ServerInfoLength f + 4.
Proof.
  exists (queryRecord (λ _ : unit, replicate (Z.to_nat 65532) Byte.x00)
            (mkResponder {["A"%string := 7]} tt) 7 Byte.x01).
  assert (HS : Size (replicate (Z.to_nat 65532) Byte.x00) = 65532).
  { unfold Size. rewrite length_replicate, Z2Nat.id by lia. reflexivity. }
  assert (HL : q_ServerInfoLength
                 (queryRecord (λ _ : unit, replicate (Z.to_nat 65532) Byte.x00)
                    (mkResponder {["A"%string := 7]} tt) 7 Byte.x01) = 65532).
  { unfold queryRecord. cbn [state q_ServerInfoLength].
    change (Z.land (byte.unsigned Byte.x01) 1 =? 1) with true.
    cbn iota. exact HS. }
  assert (HP : q_PayloadLength
                 (queryRecord (λ _ : unit, replicate (Z.to_nat 65532) Byte.x00)
                    (mkResponder {["A"%string := 7]} tt) 7 Byte.x01) = 0).
  { unfold queryRecord. cbn [state q_PayloadLength].
    change (Z.land (byte.unsigned Byte.x01) 1 =? 1) with true.
    cbn iota. cbn [q_PayloadLength]. rewrite HS. reflexivity. }
  split.
  { rewrite Respond_query by apply queryPacket_classified.
    unfold queryPacket, bytes_lit, be32, be16. cbn [app].
    rewrite (handleQuery_8 _ _ "A" 7) by reflexivity.
    unfold queryOutcome.
    rewrite decide_False by (intros Hn; by apply Hn).
    rewrite decide_False by (intros Hn; by apply Hn).
    reflexivity. }
  split; [reflexivity|].
  split; [exact HL|].
  split; [exact HP|].
  rewrite HL, HP. discriminate.
Qed.

Lemma Respond_panics_under_5_bytes_witness :
  Respond (λ _ : unit, [Byte.x2a]) (mkResponder {["A"%string := 7]} tt) 0 "A"
    (bytes_lit [Byte.x01]) = None.
Proof.
  apply (Respond_panics_under_5_bytes (λ _ : unit, [Byte.x2a])).
  cbn. lia.
Defined.

Lemma unsupported_version_reports_byte_6_witness :
  Respond (λ _ : unit, [Byte.x2a]) (mkResponder {["A"%string := 7]} tt) 0 "A"
    (queryPacket 7 257 Byte.x00)
  = Some (mkResponder ∅ tt, ([], Some (errUnsupportedVersion Byte.x01)))
  ∧ Error (errUnsupportedVersion Byte.x01) = "unsupported sqp version: 1"%string.
Proof.
  split; [|reflexivity].
  rewrite (unsupported_version_reports_byte_6 (λ _ : unit, [Byte.x2a])
             (mkResponder {["A"%string := 7]} tt) 0 "A" 7 257 Byte.x00);
    [vm_compute; reflexivity|reflexivity|lia|lia|lia].
Defined.

(** * Further properties of the responder *)

(** Writing the value read from two bytes gives the two bytes back. *)
Lemma be16_word16 (b0 b1 : byte) : be16 (word16 b0 b1) = [b0; b1].
Proof.
  pose proof (byte.unsigned_range b0). pose proof (byte.unsigned_range b1).
  unfold be16, word16.
  repeat f_equal; apply byte.unsigned_inj;
    rewrite byte.unsigned_of_Z; unfold byte.wrap;
    rewrite <- Z.land_ones by lia; Z.bitblast; clear_byte_bits.
Qed.

Lemma word32_be32 (T : Z) :
  0 ≤ T < 2 ^ 32 →
  word32 (byte.of_Z (Z.shiftr T 24)) (byte.of_Z (Z.shiftr T 16))
         (byte.of_Z (Z.shiftr T 8)) (byte.of_Z T) = T.
Proof.
  intros Hr. pose proof (BigEndian_Uint32_be32 T [] Hr) as HB.
  unfold be32, BigEndian_Uint32, index in HB. cbn in HB. congruence.
Qed.

Lemma word16_be16 (v : Z) :
  0 ≤ v < 2 ^ 16 →
  word16 (byte.of_Z (Z.shiftr v 8)) (byte.of_Z v) = v.
Proof.
  intros Hr. pose proof (BigEndian_Uint16_be16 v [] Hr) as HB.
  unfold be16, BigEndian_Uint16, index in HB. cbn in HB. congruence.
Qed.

Section Further.

Context {QueryState : Type}.
Variable conv : QueryState -> ServerInfo.
Implicit Types (q : @QueryResponder QueryState) (buf : slice).

(** The responder a returning call leaves: same state, and the store
    changed at the calling address only. *)
Lemma Respond_post q rnd A buf q' r :
  Respond conv q rnd A buf = Some (q', r) →
  (isChallenge buf = Some true
   ∧ q' = mkResponder (<[A := uint32 rnd]> (challenges q)) (state q)
   ∧ r = (Byte.x00 :: be32 (uint32 rnd), None))
  ∨ (queryClassified buf ∧ q' = consumed q A)
  ∨ (isChallenge buf = Some false ∧ isQuery buf = Some false
     ∧ q' = q ∧ r = ([], Some errUnsupportedQuery)).
Proof.
  intros H.
  destruct (Respond_cases conv q rnd A buf q' r H)
    as [[Hc E]|[[Hq E]|(H1&H2&->&->)]].
  - left. rewrite handleChallenge_eq in E. by injection E as -> ->.
  - right; left. destruct (handleQuery_returns conv q A buf) as [r' E'].
    rewrite E' in E. by injection E as <- _.
  - right; right. done.
Qed.

(** The query with the stored token and version 1 is answered with the
    record of [queryRecord]. *)
Lemma query_with_token q rnd A T (chunks : byte) :
  challenges q !! A = Some T → 0 ≤ T < 2 ^ 32 →
  Respond conv q rnd A (queryPacket T 1 chunks)
  = Some (consumed q A,
          ((WireWrite_query [] (queryRecord conv q T chunks)).1, None)).
Proof.
  intros HT Hr.
  rewrite Respond_query by apply queryPacket_classified.
  unfold queryPacket, bytes_lit, be32, be16. cbn [app].
  rewrite (handleQuery_8 conv q A T) by exact HT.
  unfold queryOutcome. rewrite word32_be32 by exact Hr.
  rewrite decide_False by (intros Hn; by apply Hn).
  rewrite decide_False by (intros Hn; by apply Hn).
  reflexivity.
Qed.

(** A query with another 32-bit value than the stored token is a
    mismatch, whatever its version and chunks. *)
Lemma query_with_wrong_token q rnd A T T' v (chunks : byte) :
  challenges q !! A = Some T → 0 ≤ T' < 2 ^ 32 → T' ≠ T →
  Respond conv q rnd A (queryPacket T' v chunks)
  = Some (consumed q A, ([], Some errChallengeMismatch)).
Proof.
  intros HT Hr Hne.
  rewrite Respond_query by apply queryPacket_classified.
  unfold queryPacket, bytes_lit, be32, be16. cbn [app].
  rewrite (handleQuery_8 conv q A T) by exact HT.
  unfold queryOutcome. rewrite word32_be32 by exact Hr.
  by rewrite decide_True by exact Hne.
Qed.

(** ** Panics *)

(** X1: [Respond] panics in exactly two situations: the buffer's capacity
    is under 5 bytes (the slice expression of [isChallenge]), or the buffer
    is empty and the 5 bytes of its backing array are not all zero (the
    index expression of [isQuery]).  Every other call returns. *)
Theorem Respond_panics_iff q rnd A buf :
  Respond conv q rnd A buf = None
  ↔ (cap buf < 5)%nat
    ∨ (len buf = 0%nat
       ∧ take 5 (elems buf ++ spare buf)
         ≠ [Byte.x00; Byte.x00; Byte.x00; Byte.x00; Byte.x00]).
Proof.
  unfold Respond, isChallenge, reslice.
  destruct (decide (0 ≤ 5 ≤ cap buf)%nat) as [Hc|Hc]; cbn.
  - unfold bytes_Equal. cbn.
    destruct (decide (take 5 (elems buf ++ spare buf)
                      = [Byte.x00; Byte.x00; Byte.x00; Byte.x00; Byte.x00]))
      as [Hz|Hz].
    + rewrite bool_decide_eq_true_2 by exact Hz.
      split; [done|]. intros [?|[_ ?]]; [lia|done].
    + rewrite bool_decide_eq_false_2 by exact Hz.
      unfold isQuery, index, len.
      destruct (elems buf) as [|b0 rest] eqn:E; cbn.
      * split; [|done]. intros _. right. done.
      * split.
        -- destruct (bool_decide (b0 = Byte.x01)); [|done].
           destruct (handleQuery_returns conv q A buf) as [r Hr].
           rewrite Hr. done.
        -- intros [?|[? _]]; [lia|done].
  - split; [|done]. intros _. left. lia.
Qed.

(** ** The order of the checks *)

(** X3: a query shorter than 8 bytes never gets a response: it fails with
    the packet-not-long-enough error when its sender holds a token, with the
    no-challenge error otherwise, and in both cases the sender is left
    without a token. *)
Theorem short_query_rejected q rnd A buf :
  queryClassified buf → (len buf < 8)%nat →
  Respond conv q rnd A buf
  = Some (consumed q A,
          ([], Some (match challenges q !! A with
                     | Some _ => errPacketNotLongEnough
                     | None => errNoChallenge
                     end)))
  ∧ challenges (consumed q A) !! A = None.
Proof.
  intros Hq Hl. split; [|apply lookup_delete_eq].
  rewrite Respond_query by exact Hq.
  destruct (challenges q !! A) as [T|] eqn:HT.
  - by apply handleQuery_short with T.
  - by apply handleQuery_no_challenge.
Qed.

(** X4: [NewQueryResponder] returns no error, and the responder it
    returns answers nothing but challenge requests: a call that returns
    without error is a challenge request, and leaves the token just drawn
    as the only one stored. *)
Theorem new_responder_answers_challenges_only (st : QueryState) :
  (NewQueryResponder st).2 = None
  ∧ ∀ rnd A buf q' resp,
      Respond conv (NewQueryResponder st).1 rnd A buf = Some (q', (resp, None)) →
      isChallenge buf = Some true
      ∧ q' = mkResponder {[A := uint32 rnd]} st.
Proof.
  split; [reflexivity|]. intros rnd A buf q' resp H.
  destruct (Respond_cases conv _ rnd A buf q' _ H)
    as [[Hc E]|[[Hq E]|(_&_&_&E)]].
  - split; [exact Hc|]. rewrite handleChallenge_eq in E.
    injection E as -> _. reflexivity.
  - rewrite handleQuery_no_challenge in E by reflexivity. congruence.
  - congruence.
Qed.

(** ** Unsupported packets *)

Lemma handleQuery_not_unsupported q A buf q' resp :
  handleQuery conv q A buf ≠ Some (q', (resp, Some errUnsupportedQuery)).
Proof.
  destruct (challenges q !! A) as [T|] eqn:HT.
  - destruct (decide (len buf < 8)%nat) as [Hl|Hl].
    + rewrite (handleQuery_short conv q A buf T HT Hl). congruence.
    + destruct (elems_8 buf) as (b0&b1&b2&b3&b4&b5&b6&b7&rest&E); [lia|].
      destruct buf as [el sp]. cbn in E. subst el.
      rewrite (handleQuery_8 conv q A T) by exact HT.
      unfold queryOutcome.
      destruct (decide (word32 b1 b2 b3 b4 ≠ T)); [congruence|].
      destruct (decide (word16 b5 b6 ≠ 1)); cbn; congruence.
  - rewrite (handleQuery_no_challenge conv q A buf HT). congruence.
Qed.

(** X7: on a buffer of at least 5 bytes, [Respond] fails with the
    unsupported-query error exactly when byte 0 is not 1 and the first 5
    bytes are not all zero; such a call returns no bytes and leaves the
    responder as it was. *)
Theorem unsupported_iff q rnd A buf :
  (5 ≤ len buf)%nat →
  ((∃ q' resp, Respond conv q rnd A buf
               = Some (q', (resp, Some errUnsupportedQuery)))
   ↔ (elems buf !! 0%nat ≠ Some Byte.x01
      ∧ take 5 (elems buf)
        ≠ [Byte.x00; Byte.x00; Byte.x00; Byte.x00; Byte.x00]))
  ∧ (∀ q' resp, Respond conv q rnd A buf
                = Some (q', (resp, Some errUnsupportedQuery)) →
                q' = q ∧ resp = []).
Proof.
  intros Hl. destruct (elems_5 buf Hl) as (b0&b1&b2&b3&b4&rest&E).
  destruct buf as [el sp]. cbn in E. subst el. cbn [elems take].
  assert (Hpost : ∀ q' resp,
            Respond conv q rnd A
              (mkSlice (b0 :: b1 :: b2 :: b3 :: b4 :: rest) sp)
            = Some (q', (resp, Some errUnsupportedQuery)) →
            isChallenge (mkSlice (b0 :: b1 :: b2 :: b3 :: b4 :: rest) sp)
            = Some false
            ∧ isQuery (mkSlice (b0 :: b1 :: b2 :: b3 :: b4 :: rest) sp)
              = Some false
            ∧ q' = q ∧ resp = []).
  { intros q' resp H.
    destruct (Respond_cases conv q rnd A _ q' _ H)
      as [[_ E]|[[_ E]|(H1&H2&->&E)]].
    - rewrite handleChallenge_eq in E. congruence.
    - by apply handleQuery_not_unsupported in E.
    - injection E as ->. done. }
  split; [split|].
  - intros (q' & resp & H). destruct (Hpost q' resp H) as (H1 & H2 & _).
    rewrite isChallenge_5 in H1. rewrite isQuery_cons in H2.
    injection H1 as H1. injection H2 as H2.
    apply bool_decide_eq_false in H1, H2.
    split; [cbn; congruence|exact H1].
  - intros [H0 Hz]. exists q, [].
    apply Respond_unsupported.
    + rewrite isChallenge_5. by rewrite bool_decide_eq_false_2.
    + rewrite isQuery_cons. rewrite bool_decide_eq_false_2; [done|].
      cbn in H0. congruence.
  - intros q' resp H. by destruct (Hpost q' resp H) as (_ & _ & ? & ?).
Qed.

(** ** The store and the state after a call *)

(** X10: a returning call never changes the responder's query state, and
    changes the set of addresses holding a token by the caller at most: a
    challenge request adds the caller, a query removes it, an unsupported
    packet leaves the store as it was. *)
Theorem Respond_store_domain q rnd A buf q' r :
  Respond conv q rnd A buf = Some (q', r) →
  state q' = state q
  ∧ ((isChallenge buf = Some true
      ∧ dom (challenges q') = {[A]} ∪ dom (challenges q))
     ∨ (queryClassified buf
        ∧ dom (challenges q') = dom (challenges q) ∖ {[A]})
     ∨ (r = ([], Some errUnsupportedQuery)
        ∧ challenges q' = challenges q)).
Proof.
  intros H.
  destruct (Respond_post q rnd A buf q' r H)
    as [(Hc&->&_)|[(Hq&->)|(_&_&->&->)]]; cbn.
  - split; [done|]. left. split; [done|]. apply dom_insert_L.
  - split; [done|]. right; left. split; [done|]. apply dom_delete_L.
  - split; [done|]. right; right. done.
Qed.

(** ** Reachable responders *)

(** X2: every token stored in a responder reached from
    [NewQueryResponder] by calls of [Respond] is a 32-bit value. *)
Theorem reachable_tokens_32_bit q :
  reachable conv q → map_Forall (λ _ t, 0 ≤ t < 2 ^ 32) (challenges q).
Proof.
  induction 1 as [st|q rnd A buf q' r _ IH H].
  - cbn. apply map_Forall_empty.
  - by apply (tokens_stay_32_bit conv q rnd A buf q' r).
Qed.

(** Calls from other addresses leave the caller's entry and the state. *)
Lemma served_others_frame A q q' :
  served_others conv A q q' →
  challenges q' !! A = challenges q !! A ∧ state q' = state q.
Proof.
  induction 1 as [q|q rnd B buf q1 r q2 Hne H _ [IH1 IH2]]; [done|].
  rewrite IH1, IH2.
  destruct (Respond_post q rnd B buf q1 r H)
    as [(_&->&_)|[(_&->)|(_&_&->&_)]]; cbn; [| |done].
  - by rewrite lookup_insert_ne.
  - by rewrite lookup_delete_ne.
Qed.

(** ** The handshake *)

(** X5: the handshake completes whatever other clients do in between.
    After a challenge request from [A] has drawn the token [T], and after
    any number of calls from other addresses, the query from [A] carrying
    [T] and version 1 is answered without error by the record of the
    query, for any chunk bitmask, and [A] is left without a token. *)
Theorem handshake_completes q rnd A buf q1 r1 q2 rnd2 (chunks : byte) :
  isChallenge buf = Some true →
  Respond conv q rnd A buf = Some (q1, r1) →
  served_others conv A q1 q2 →
  let T := uint32 rnd in
  Respond conv q2 rnd2 A (queryPacket T 1 chunks)
  = Some (consumed q2 A,
          ((WireWrite_query [] (queryRecord conv q T chunks)).1, None))
  ∧ challenges (consumed q2 A) !! A = None.
Proof.
  intros Hc H Hs T. split; [|apply lookup_delete_eq].
  destruct (served_others_frame A q1 q2 Hs) as [Hf Hst].
  rewrite Respond_challenge in H by exact Hc.
  rewrite handleChallenge_eq in H. injection H as <- _.
  cbn in Hf, Hst. rewrite lookup_insert_eq in Hf.
  rewrite (query_with_token q2 rnd2 A T chunks Hf (uint32_range rnd)).
  unfold queryRecord. by rewrite Hst.
Qed.

(** X6: a second challenge request replaces the token of the first: when
    the two draws differ, the query carrying the first token fails with the
    challenge-mismatch error, returns no bytes, and leaves the address
    without any token. *)
Theorem reissued_challenge_invalidates_first q r1 r2 r3 A buf1 buf2 q1 x1 q2 x2
    v (chunks : byte) :
  isChallenge buf1 = Some true → isChallenge buf2 = Some true →
  Respond conv q r1 A buf1 = Some (q1, x1) →
  Respond conv q1 r2 A buf2 = Some (q2, x2) →
  uint32 r1 ≠ uint32 r2 →
  Respond conv q2 r3 A (queryPacket (uint32 r1) v chunks)
  = Some (consumed q2 A, ([], Some errChallengeMismatch))
  ∧ challenges (consumed q2 A) !! A = None.
Proof.
  intros Hc1 Hc2 H1 H2 Hne. split; [|apply lookup_delete_eq].
  rewrite Respond_challenge in H2 by exact Hc2.
  rewrite handleChallenge_eq in H2. injection H2 as <- _.
  apply query_with_wrong_token with (uint32 r2).
  - cbn. apply lookup_insert_eq.
  - apply uint32_range.
  - exact Hne.
Qed.

(** ** What a query depends on *)

(** X9: a query is answered without error exactly when its sender holds
    a token [T], the packet has at least 8 bytes, and its first 7 bytes are
    1, [T] big-endian, 0 and 1 (the stored tokens being 32-bit values). *)
Theorem query_accepted_iff q rnd A buf :
  map_Forall (λ _ t, 0 ≤ t < 2 ^ 32) (challenges q) →
  queryClassified buf →
  (∃ q' resp, Respond conv q rnd A buf = Some (q', (resp, None)))
  ↔ (∃ T, challenges q !! A = Some T ∧ (8 ≤ len buf)%nat
          ∧ take 7 (elems buf) = Byte.x01 :: be32 T ++ [Byte.x00; Byte.x01]).
Proof.
  intros Hwf Hq. rewrite Respond_query by exact Hq. split.
  - intros (q' & resp & H).
    destruct (challenges q !! A) as [T|] eqn:HT.
    2:{ rewrite (handleQuery_no_challenge conv q A buf HT) in H. congruence. }
    destruct (decide (len buf < 8)%nat) as [Hl|Hl].
    { rewrite (handleQuery_short conv q A buf T HT Hl) in H. congruence. }
    exists T. split; [done|]. split; [lia|].
    destruct (elems_8 buf) as (b0&b1&b2&b3&b4&b5&b6&b7&rest&E); [lia|].
    destruct buf as [el sp]. cbn in E. subst el.
    rewrite (handleQuery_8 conv q A T) in H by exact HT.
    unfold queryOutcome in H.
    destruct (decide (word32 b1 b2 b3 b4 ≠ T)) as [|H32]; [congruence|].
    destruct (decide (word16 b5 b6 ≠ 1)) as [|H16]; [congruence|].
    apply dec_stable in H32. apply dec_stable in H16.
    destruct Hq as [_ Hy]. rewrite isQuery_cons in Hy.
    injection Hy as Hy. apply bool_decide_eq_true in Hy. subst b0.
    cbn [elems take].
    rewrite <- H32, (be32_BigEndian_Uint32 b1 b2 b3 b4 [] _ eq_refl).
    pose proof (be16_word16 b5 b6) as H56. rewrite H16 in H56.
    injection H56 as <- <-. reflexivity.
  - intros (T & HT & Hl & E7).
    destruct (elems_8 buf Hl) as (b0&b1&b2&b3&b4&b5&b6&b7&rest&E).
    destruct buf as [el sp]. cbn in E. subst el.
    cbn in E7. injection E7 as -> -> -> -> -> -> ->.
    rewrite (handleQuery_8 conv q A T) by exact HT.
    unfold queryOutcome.
    rewrite word32_be32 by exact (map_Forall_lookup_1 _ _ _ _ Hwf HT).
    rewrite decide_False by (intros Hn; by apply Hn).
    rewrite decide_False by (intros Hn; by apply Hn).
    eauto.
Qed.

(** X8: of the chunk bitmask only bit 0 is read: two packets with the
    same first 7 bytes, whose bytes 7 agree on bit 0, get the same result,
    whatever the other bits and whatever follows. *)
Theorem only_chunk_bit_0_is_read q rnd A (pre : list byte) (c1 c2 : byte)
    (rest1 rest2 sp1 sp2 : list byte) :
  length pre = 7%nat →
  Z.testbit (byte.unsigned c1) 0 = Z.testbit (byte.unsigned c2) 0 →
  Respond conv q rnd A (mkSlice (pre ++ c1 :: rest1) sp1)
  = Respond conv q rnd A (mkSlice (pre ++ c2 :: rest2) sp2).
Proof.
  intros Hl Hb.
  destruct pre as [|b0 [|b1 [|b2 [|b3 [|b4 [|b5 [|b6 [|]]]]]]]];
    cbn in Hl; try lia. cbn [app].
  unfold Respond. rewrite !isChallenge_5, !isQuery_cons.
  destruct (bool_decide ([b0; b1; b2; b3; b4] = _)); cbn; [done|].
  destruct (bool_decide (b0 = Byte.x01)); cbn; [|done].
  destruct (challenges q !! A) as [T|] eqn:HT.
  - rewrite !(handleQuery_8 conv q A T) by exact HT.
    unfold queryOutcome, queryRecord. by rewrite !land_1_bit0, Hb.
  - by rewrite !handleQuery_no_challenge by exact HT.
Qed.

End Further.

(** X11: the query state is read only for a query that asks for the
    server info.  Two responders with the same store, whatever their states
    and conversions, give the same response, the same error and the same
    store on every packet that is not a query with bit 0 of byte 7 set. *)
Theorem state_read_only_for_server_info {QS1 QS2 : Type}
    (conv1 : QS1 → ServerInfo) (conv2 : QS2 → ServerInfo)
    (q1 : @QueryResponder QS1) (q2 : @QueryResponder QS2)
    (rnd : Z) (A : string) (buf : slice) :
  challenges q1 = challenges q2 →
  (queryClassified buf → ∀ c, index buf 7 = Some c →
     Z.testbit (byte.unsigned c) 0 = false) →
  prod_map challenges id <$> Respond conv1 q1 rnd A buf
  = prod_map challenges id <$> Respond conv2 q2 rnd A buf.
Proof.
  intros Hs Hbit. unfold Respond.
  destruct (isChallenge buf) as [[|]|] eqn:Hc; cbn; [| |done].
  { by rewrite Hs. }
  destruct (isQuery buf) as [[|]|] eqn:Hy; cbn; [| |done].
  2:{ by rewrite Hs. }
  specialize (Hbit (conj Hc Hy)).
  destruct (challenges q2 !! A) as [T|] eqn:HT.
  2:{ rewrite !handleQuery_no_challenge by congruence. cbn. by rewrite Hs. }
  destruct (decide (len buf < 8)%nat) as [Hl|Hl].
  { rewrite !(handleQuery_short _ _ A buf T) by congruence. cbn. by rewrite Hs. }
  destruct (elems_8 buf) as (b0&b1&b2&b3&b4&b5&b6&b7&rest&E); [lia|].
  destruct buf as [el sp]. cbn in E. subst el.
  rewrite !(handleQuery_8 _ _ A T) by congruence.
  cbn. rewrite Hs. do 2 f_equal.
  unfold queryOutcome, queryRecord.
  rewrite land_1_bit0, (Hbit b7 eq_refl). reflexivity.
Qed.

(** ** Concrete runs of the further properties *)

Lemma reachable_tokens_32_bit_witness :
  map_Forall (λ _ t, 0 ≤ t < 2 ^ 32)
    (challenges (mkResponder {["A"%string := 258]} tt)).
Proof.
  apply (reachable_tokens_32_bit (λ _ : unit, [Byte.x2a])).
  apply (reachable_call _ (NewQueryResponder tt).1 4294967554 "A"
           (bytes_lit [Byte.x00; Byte.x00; Byte.x00; Byte.x00; Byte.x00])
           _ ([Byte.x00; Byte.x00; Byte.x00; Byte.x01; Byte.x02], None)).
  - apply reachable_new.
  - vm_compute. reflexivity.
Defined.

Lemma short_query_rejected_witness :
  Respond (λ _ : unit, [Byte.x2a]) (mkResponder {["A"%string := 7]} tt) 0 "A"
    (bytes_lit [Byte.x01; Byte.x00; Byte.x00; Byte.x00; Byte.x07; Byte.x00; Byte.x01])
  = Some (mkResponder ∅ tt, ([], Some errPacketNotLongEnough)).
Proof.
  destruct (short_query_rejected (λ _ : unit, [Byte.x2a])
              (mkResponder {["A"%string := 7]} tt) 0 "A"
              (bytes_lit [Byte.x01; Byte.x00; Byte.x00; Byte.x00; Byte.x07;
                          Byte.x00; Byte.x01])) as [H _].
  - split; reflexivity.
  - cbn. lia.
  - rewrite H. vm_compute. reflexivity.
Defined.

Lemma new_responder_answers_challenges_only_witness :
  isChallenge (bytes_lit [Byte.x00; Byte.x00; Byte.x00; Byte.x00; Byte.x00])
  = Some true
  ∧ mkResponder {["A"%string := 258]} tt
    = mkResponder {["A"%string := uint32 258]} tt.
Proof.
  destruct (new_responder_answers_challenges_only (λ _ : unit, [Byte.x2a]) tt)
    as [_ H].
  apply (H 258 "A"%string
           (bytes_lit [Byte.x00; Byte.x00; Byte.x00; Byte.x00; Byte.x00])
           (mkResponder {["A"%string := 258]} tt)
           [Byte.x00; Byte.x00; Byte.x00; Byte.x01; Byte.x02]).
  vm_compute. reflexivity.
Defined.

Lemma handshake_completes_witness :
  Respond (λ _ : unit, [Byte.x2a])
    (mkResponder {["A"%string := 258; "B"%string := 9]} tt) 0 "A"
    (queryPacket 258 1 Byte.x01)
  = Some (mkResponder {["B"%string := 9]} tt,
          ([Byte.x01; Byte.x00; Byte.x00; Byte.x01; Byte.x02; Byte.x00;
            Byte.x01; Byte.x00; Byte.x00; Byte.x00; Byte.x05; Byte.x00;
            Byte.x00; Byte.x00; Byte.x01; Byte.x2a], None)).
Proof.
  destruct (handshake_completes (λ _ : unit, [Byte.x2a])
              (mkResponder ∅ tt) 258 "A"
              (bytes_lit [Byte.x00; Byte.x00; Byte.x00; Byte.x00; Byte.x00])
              (mkResponder {["A"%string := 258]} tt)
              ([Byte.x00; Byte.x00; Byte.x00; Byte.x01; Byte.x02], None)
              (mkResponder {["A"%string := 258; "B"%string := 9]} tt)
              0 Byte.x01) as [H _].
  - reflexivity.
  - vm_compute. reflexivity.
  - apply (served_call _ "A" _ 9 "B"
             (bytes_lit [Byte.x00; Byte.x00; Byte.x00; Byte.x00; Byte.x00])
             (mkResponder {["A"%string := 258; "B"%string := 9]} tt)
             ([Byte.x00; Byte.x00; Byte.x00; Byte.x00; Byte.x09], None)).
    + discriminate.
    + vm_compute. reflexivity.
    + apply served_none.
  - etransitivity; [exact H|]. vm_compute. reflexivity.
Defined.

Lemma reissued_challenge_invalidates_first_witness :
  Respond (λ _ : unit, [Byte.x2a]) (mkResponder {["A"%string := 9]} tt) 0 "A"
    (queryPacket 7 1 Byte.x00)
  = Some (mkResponder ∅ tt, ([], Some errChallengeMismatch)).
Proof.
  destruct (reissued_challenge_invalidates_first (λ _ : unit, [Byte.x2a])
              (mkResponder ∅ tt) 7 9 0 "A"
              (bytes_lit [Byte.x00; Byte.x00; Byte.x00; Byte.x00; Byte.x00])
              (bytes_lit [Byte.x00; Byte.x00; Byte.x00; Byte.x00; Byte.x00])
              (mkResponder {["A"%string := 7]} tt)
              ([Byte.x00; Byte.x00; Byte.x00; Byte.x00; Byte.x07], None)
              (mkResponder {["A"%string := 9]} tt)
              ([Byte.x00; Byte.x00; Byte.x00; Byte.x00; Byte.x09], None)
              1 Byte.x00) as [H _].
  - reflexivity.
  - reflexivity.
  - vm_compute. reflexivity.
  - vm_compute. reflexivity.
  - vm_compute. discriminate.
  - etransitivity; [exact H|]. vm_compute. reflexivity.
Defined.

Lemma unsupported_iff_witness :
  ∃ q' resp,
    Respond (λ _ : unit, [Byte.x2a]) (mkResponder {["A"%string := 7]} tt) 0 "A"
      (bytes_lit [Byte.x00; Byte.x00; Byte.x00; Byte.x00; Byte.x01])
    = Some (q', (resp, Some errUnsupportedQuery)).
Proof.
  destruct (unsupported_iff (λ _ : unit, [Byte.x2a])
              (mkResponder {["A"%string := 7]} tt) 0 "A"
              (bytes_lit [Byte.x00; Byte.x00; Byte.x00; Byte.x00; Byte.x01]))
    as [[_ H] _].
  - cbn. lia.
  - apply H. split; cbn; discriminate.
Defined.

Lemma only_chunk_bit_0_is_read_witness :
  Respond (λ _ : unit, [Byte.x2a]) (mkResponder {["A"%string := 7]} tt) 0 "A"
    (mkSlice ([Byte.x01; Byte.x00; Byte.x00; Byte.x00; Byte.x07; Byte.x00; Byte.x01]
              ++ Byte.x01 :: []) [])
  = Respond (λ _ : unit, [Byte.x2a]) (mkResponder {["A"%string := 7]} tt) 0 "A"
      (mkSlice ([Byte.x01; Byte.x00; Byte.x00; Byte.x00; Byte.x07; Byte.x00; Byte.x01]
                ++ Byte.xff :: [Byte.x33]) [Byte.x44]).
Proof.
  apply (only_chunk_bit_0_is_read (λ _ : unit, [Byte.x2a])); reflexivity.
Defined.

Lemma query_accepted_iff_witness :
  ∃ q' resp,
    Respond (λ _ : unit, [Byte.x2a]) (mkResponder {["A"%string := 7]} tt) 0 "A"
      (queryPacket 7 1 Byte.x00)
    = Some (q', (resp, None)).
Proof.
  apply (query_accepted_iff (λ _ : unit, [Byte.x2a])
           (mkResponder {["A"%string := 7]} tt) 0 "A"
           (queryPacket 7 1 Byte.x00)).
  - apply map_Forall_singleton. lia.
  - apply queryPacket_classified.
  - exists 7. split; [reflexivity|]. split; [cbn; lia|reflexivity].
Defined.

Lemma Respond_store_domain_witness :
  state (mkResponder (∅ : gmap string Z) tt) = tt
  ∧ ((isChallenge (queryPacket 7 1 Byte.x00) = Some true
      ∧ dom (challenges (mkResponder (∅ : gmap string Z) tt))
        = {["A"%string]} ∪ dom (challenges (mkResponder {["A"%string := 7]} tt)))
     ∨ (queryClassified (queryPacket 7 1 Byte.x00)
        ∧ dom (challenges (mkResponder (∅ : gmap string Z) tt))
          = dom (challenges (mkResponder {["A"%string := 7]} tt)) ∖ {["A"%string]})
     ∨ (([Byte.x01; Byte.x00; Byte.x00; Byte.x00; Byte.x07; Byte.x00;
          Byte.x01; Byte.x00; Byte.x00; Byte.x00; Byte.x00; Byte.x00;
          Byte.x00; Byte.x00; Byte.x00], None)
        = ([], Some errUnsupportedQuery)
        ∧ challenges (mkResponder (∅ : gmap string Z) tt)
          = challenges (mkResponder {["A"%string := 7]} tt))).
Proof.
  apply (Respond_store_domain (λ _ : unit, [Byte.x2a])
           (mkResponder {["A"%string := 7]} tt) 0 "A"
           (queryPacket 7 1 Byte.x00)).
  vm_compute. reflexivity.
Defined.

Lemma state_read_only_for_server_info_witness :
  prod_map challenges id
    <$> Respond (λ _ : unit, [Byte.x2a])
          (mkResponder {["A"%string := 7]} tt) 0 "A" (queryPacket 7 1 Byte.x02)
  = prod_map challenges id
      <$> Respond (λ n : nat, replicate n Byte.xff)
            (mkResponder {["A"%string := 7]} 5%nat) 0 "A"
            (queryPacket 7 1 Byte.x02).
Proof.
  apply (state_read_only_for_server_info (λ _ : unit, [Byte.x2a])
           (λ n : nat, replicate n Byte.xff)).
  - reflexivity.
  - intros _ c [= <-]. reflexivity.
Defined.

(** ** Kinds of packet, tokens and addresses *)

(** X12: the two classifiers never both return true.  When [isChallenge]
    returns true, [isQuery] returns false on a non-empty buffer and panics
    on an empty one; when [isQuery] returns true, [isChallenge] returns
    false, or panics if the capacity is under 5 bytes. *)
Theorem classifiers_exclusive (buf : slice) :
  (isChallenge buf = Some true →
     isQuery buf = if decide (len buf = 0%nat) then None else Some false)
  ∧ (isQuery buf = Some true →
     isChallenge buf = if decide (cap buf < 5)%nat then None else Some false).
Proof.
  unfold isChallenge, isQuery, reslice, index, bytes_Equal, len, cap.
  destruct buf as [[|b0 rest] sp]; cbn [elems spare].
  - split; [|done]. intros _. reflexivity.
  - split.
    + destruct (decide (0 ≤ 5 ≤ length ((b0 :: rest) ++ sp))%nat); cbn;
        [|done].
      intros [= H]. apply bool_decide_eq_true in H. injection H as -> _.
      reflexivity.
    + cbn. intros [= H]. apply bool_decide_eq_true in H. subst b0.
      destruct (decide (0 ≤ 5 ≤ S (length (rest ++ sp)))%nat) as [Hc|Hc].
      * rewrite decide_False by lia. cbn.
        by rewrite bool_decide_eq_false_2 by congruence.
      * rewrite decide_True by lia. reflexivity.
Qed.

Lemma classifiers_exclusive_witness :
  isQuery (bytes_lit [Byte.x00; Byte.x00; Byte.x00; Byte.x00; Byte.x00; Byte.x01])
  = Some false
  ∧ isQuery (mkSlice [] [Byte.x00; Byte.x00; Byte.x00; Byte.x00; Byte.x00])
    = None
  ∧ isChallenge (bytes_lit [Byte.x01; Byte.x00; Byte.x00; Byte.x00; Byte.x00])
    = Some false
  ∧ isChallenge (bytes_lit [Byte.x01]) = None.
Proof.
  split; [|split; [|split]].
  - apply (classifiers_exclusive
             (bytes_lit [Byte.x00; Byte.x00; Byte.x00; Byte.x00; Byte.x00; Byte.x01])).
    reflexivity.
  - apply (classifiers_exclusive
             (mkSlice [] [Byte.x00; Byte.x00; Byte.x00; Byte.x00; Byte.x00])).
    reflexivity.
  - apply (classifiers_exclusive
             (bytes_lit [Byte.x01; Byte.x00; Byte.x00; Byte.x00; Byte.x00])).
    reflexivity.
  - apply (classifiers_exclusive (bytes_lit [Byte.x01])).
    reflexivity.
Defined.

(** X13: a token is bound to the address it was issued to.  When [A]
    holds the 32-bit token [T] and another address [B] does not hold that
    same value, the query from [B] carrying [T] gets no response: it fails
    with the no-challenge or the challenge-mismatch error, and [A] still
    holds [T]. *)
Theorem token_bound_to_address {QueryState : Type}
    (conv : QueryState → ServerInfo) (q : @QueryResponder QueryState)
    (rnd : Z) (A B : string) (T v : Z) (chunks : byte) :
  A ≠ B →
  challenges q !! A = Some T → 0 ≤ T < 2 ^ 32 →
  challenges q !! B ≠ Some T →
  ∃ e, Respond conv q rnd B (queryPacket T v chunks)
       = Some (consumed q B, ([], Some e))
       ∧ (e = errNoChallenge ∨ e = errChallengeMismatch)
       ∧ challenges (consumed q B) !! A = Some T.
Proof.
  intros Hne HA Hr HB.
  assert (Hkeep : challenges (consumed q B) !! A = Some T).
  { cbn. by rewrite lookup_delete_ne. }
  destruct (challenges q !! B) as [TB|] eqn:HTB.
  - exists errChallengeMismatch. split; [|by auto].
    apply query_with_wrong_token with TB; [done|done|congruence].
  - exists errNoChallenge. split; [|by auto].
    rewrite Respond_query by apply queryPacket_classified.
    by apply handleQuery_no_challenge.
Qed.

Lemma token_bound_to_address_witness :
  ∃ e, Respond (λ _ : unit, [Byte.x2a])
         (mkResponder {["A"%string := 7; "B"%string := 9]} tt) 0 "B"
         (queryPacket 7 1 Byte.x00)
       = Some (consumed (mkResponder {["A"%string := 7; "B"%string := 9]} tt) "B",
               ([], Some e))
       ∧ (e = errNoChallenge ∨ e = errChallengeMismatch)
       ∧ challenges
           (consumed (mkResponder {["A"%string := 7; "B"%string := 9]} tt) "B")
         !! "A"%string = Some 7.
Proof.
  apply (token_bound_to_address (λ _ : unit, [Byte.x2a])
           (mkResponder {["A"%string := 7; "B"%string := 9]} tt) 0 "A" "B").
  - discriminate.
  - reflexivity.
  - lia.
  - vm_compute. discriminate.
Defined.
